(** * monadplay: the list monad of [monadplay.cc], embedded and verified

    The C++ program defines [unit] and [prod] (bind) on [std::list], derives
    [join], [fmap] and [foldl] from them, checks the three monad laws over
    the integers 0..99 and then prints three arithmetic checks.

    Layout of this development:
    - 64-bit integer arithmetic, as the interface [Arith] with two
      instances: [machine] (wrap-around, the program as it runs) and
      [exact] (a result is [None] as soon as one operation leaves the range
      of its type);
    - the sequence operations as pure functions on [list];
    - [prod] once more as an executor over a store of list objects, which
      records the by-value parameter of every call and every application of
      the function argument;
    - [main] in a small output monad;
    - reference notions (mathematical sums, congruence modulo 2^64);
    - the theorems: the claims first, then arithmetic modulo 2^64 and
      further properties of the operations and of the checks. *)

From Stdlib Require Import ZArith List Bool String Ascii Lia.
From Stdlib Require Import DecimalString.
From stdpp Require Import base list.

Import ListNotations.
Local Open Scope Z_scope.

(** ** 64-bit integers *)

(** [int64_t]: two's complement wrap-around of a mathematical integer. *)
Definition wrap64 (z : Z) : Z := (z + 2 ^ 63) mod 2 ^ 64 - 2 ^ 63.

(** [size_t] on an LP64 target: reduction modulo 2^64. *)
Definition wrapu64 (z : Z) : Z := z mod 2 ^ 64.

Definition in_int64 (z : Z) : bool := (- 2 ^ 63 <=? z) && (z <? 2 ^ 63).
Definition in_size (z : Z) : bool := (0 <=? z) && (z <? 2 ^ 64).

(** The arithmetic the program performs.  The lambdas of [main] are generic
    ([auto] parameters); every use is at [int64_t], except [sn1] and [sn2],
    the subtraction [ls.size() - 1] and the left-hand side of the third
    check, which are at [size_t].  A mixed [size_t]/[int64_t] operation
    converts the signed operand with [to_size] first. *)
Class Arith (I : Type) := {
  int64 : Z -> I;          (* a value stored into an [int64_t] *)
  add : I -> I -> I;       (* [int64_t + int64_t] *)
  sub : I -> I -> I;       (* [int64_t - int64_t] *)
  mul : I -> I -> I;       (* [int64_t * int64_t] *)
  quo : I -> I -> I;       (* [int64_t / int64_t], truncating *)
  usize : Z -> I;          (* a value stored into a [size_t] *)
  uadd : I -> I -> I;      (* [size_t + size_t] *)
  usub : I -> I -> I;      (* [size_t - size_t] *)
  umul : I -> I -> I;      (* [size_t * size_t] *)
  uquo : I -> I -> I;      (* [size_t / size_t] *)
  to_size : I -> I;        (* conversion [int64_t] -> [size_t] *)
  eqb : I -> I -> bool     (* [==] on two values of one type *)
}.

(** The program as compiled: every result is reduced to its type. *)
#[export] Instance machine : Arith Z := {|
  int64 z := wrap64 z;
  add a b := wrap64 (a + b);
  sub a b := wrap64 (a - b);
  mul a b := wrap64 (a * b);
  quo a b := wrap64 (Z.quot a b);
  usize z := wrapu64 z;
  uadd a b := wrapu64 (a + b);
  usub a b := wrapu64 (a - b);
  umul a b := wrapu64 (a * b);
  uquo a b := wrapu64 (Z.quot a b);
  to_size a := wrapu64 a;
  eqb a b := Z.eqb a b
|}.

(** Overflow detection: an operation yields its mathematical result when
    that result fits the type of the operation, and [None] otherwise; [None]
    is absorbing. *)
Definition checked (ok : Z -> bool) (z : Z) : option Z :=
  if ok z then Some z else None.

Definition lift2 (ok : Z -> bool) (op : Z -> Z -> Z) (a b : option Z)
  : option Z :=
  match a, b with
  | Some x, Some y => checked ok (op x y)
  | _, _ => None
  end.

Definition exact_eqb (a b : option Z) : bool :=
  match a, b with
  | Some x, Some y => Z.eqb x y
  | None, None => true
  | _, _ => false
  end.

#[export] Instance exact : Arith (option Z) := {|
  int64 z := checked in_int64 z;
  add := lift2 in_int64 Z.add;
  sub := lift2 in_int64 Z.sub;
  mul := lift2 in_int64 Z.mul;
  quo := lift2 in_int64 Z.quot;
  usize z := checked in_size z;
  uadd := lift2 in_size Z.add;
  usub := lift2 in_size Z.sub;
  umul := lift2 in_size Z.mul;
  uquo := lift2 in_size Z.quot;
  to_size a := match a with Some x => checked in_size x | None => None end;
  eqb := exact_eqb
|}.

(** ** The sequence operations *)

(** [std::list<X> unit(X const & x) { return std::list<X>{x}; }] *)
Definition unit {X : Type} (x : X) : list X := [x].

(** [prod(F f, std::list<X> x)]: empty gives empty; otherwise [y] is
    [f(x.front())], the front is popped, and the result of [prod(f, x)] on
    what is left is spliced at the end of [y]. *)
Fixpoint prod {X U : Type} (f : X -> list U) (x : list X) : list U :=
  match x with
  | [] => []
  | front :: rest => let y := f front in y ++ prod f rest
  end.

(** [join(x) = prod([](auto y) { return y; }, x)] *)
Definition join {X : Type} (x : list (list X)) : list X :=
  prod (fun y => y) x.

(** [fmap(f, x) = prod([=](auto y) { return unit(f(y)); }, x)].  The declared
    return type is [std::list<X>], the element type of the argument, so [f]
    maps [X] to [X]. *)
Definition fmap {X : Type} (f : X -> X) (x : list X) : list X :=
  prod (fun y => unit (f y)) x.

(** [for (auto && i : m) y = f(y, i); return y;] *)
Fixpoint foldl {X Y : Type} (f : Y -> X -> Y) (m : list X) (y : Y) : Y :=
  match m with
  | [] => y
  | i :: m' => foldl f m' (f y i)
  end.

(** [operator==] of [std::list]: same length and equal elements, in order. *)
Fixpoint list_eq {X : Type} (eq : X -> X -> bool) (a b : list X) : bool :=
  match a, b with
  | [], [] => true
  | x :: a', y :: b' => eq x y && list_eq eq a' b'
  | _, _ => false
  end.

(** [std::iota(first, last, value)]: overwrite every element with the
    running value and increment it. *)
Fixpoint iota {I : Type} `{Arith I} (l : list I) (value : Z) : list I :=
  match l with
  | [] => []
  | _ :: l' => int64 value :: iota l' (value + 1)
  end.

(** ** The lambdas of [main] *)

Section Program.
Context {I : Type} `{Arith I}.

(** [std::list<int64_t> ls(100); std::iota(ls.begin(), ls.end(), 0);] *)
Definition ls : list I := iota (repeat (int64 0) 100) 0.

(** [auto f = [](int64_t x) { return unit(x * x); };] *)
Definition f (x : I) : list I := unit (mul x x).

(** [auto g = [](int64_t x) { return unit(x + x); };] *)
Definition g (x : I) : list I := unit (add x x).

(** [prod(f, unit(x)) == f(x)] *)
Definition law1 (x : I) : bool :=
  list_eq eqb (prod f (unit x)) (f x).

(** [prod(static_cast<U>(&unit), unit(x)) == std::list<int64_t>{x}] *)
Definition law2 (x : I) : bool :=
  list_eq eqb (prod unit (unit x)) [x].

(** [prod(f, prod(g, unit(x)))
     == prod([=](auto x) { return prod(f,g(x)); }, unit(x))] *)
Definition law3 (x : I) : bool :=
  list_eq eqb (prod f (prod g (unit x)))
              (prod (fun x => prod f (g x)) (unit x)).

(** [laws_check(s, x) = s && law1(x) && law2(x) && law3(x)], first with
    the three captured checks as parameters, then as [main] builds it. *)
Definition laws_check_of (law1 law2 law3 : I -> bool) (s : bool) (x : I)
  : bool :=
  s && law1 x && law2 x && law3 x.

Definition laws_check : bool -> I -> bool :=
  laws_check_of law1 law2 law3.

(** [sum], [dif] and [sqr] are only used at [int64_t]. *)
Definition sum (x y : I) : I := add x y.
Definition dif (x y : I) : I := sub x y.
Definition sqr (x : I) : I := mul x x.

(** [sn1] and [sn2] are only applied to [ls.size()-1], a [size_t]:
    [x*(x+1)/2] and [x*(x+1)*(2*x+1)/6]. *)
Definition sn1 (x : I) : I :=
  uquo (umul x (uadd x (usize 1))) (usize 2).
Definition sn2 (x : I) : I :=
  uquo (umul (umul x (uadd x (usize 1)))
             (uadd (umul (usize 2) x) (usize 1)))
       (usize 6).

(** [par(x, y) = [=](auto z) { return x(z,y); }] and
    [dot(x, y) = [=](auto z) { return x(y(z)); }] *)
Definition par {A B C : Type} (x : A -> B -> C) (y : B) : A -> C :=
  fun z => x z y.
Definition dot {A B C : Type} (x : B -> C) (y : A -> B) : A -> C :=
  fun z => x (y z).

(** [dx_sqr(x, l) = fmap(dot(sqr,par(dif,x)), l)] *)
Definition dx_sqr (x : I) (l : list I) : list I :=
  fmap (dot sqr (par dif x)) l.

(** [foldl(sum,fmap(sqr,x),int64_t{})] *)
Definition sigma_squares (x : list I) : I :=
  foldl sum (fmap sqr x) (int64 0).

(** [sqr(foldl(sum,x, int64_t{}))] *)
Definition sigma_sqr (x : list I) : I :=
  sqr (foldl sum x (int64 0)).

(** [foldl(sum,prod(par(dx_sqr,x),x), int64_t{})] *)
Definition sigma_dx2 (x : list I) : I :=
  foldl sum (prod (par dx_sqr x) x) (int64 0).

(** [ls.size()] *)
Definition size_of (l : list I) : I := usize (Z.of_nat (length l)).

(** [ls.size() - 1], the last integer of the sequence. *)
Definition last_index (l : list I) : I := usub (size_of l) (usize 1).

(** [foldl(sum, prod(g, ls), int64_t{}) == 2*sn1(ls.size()-1)] *)
Definition check_doubles (l : list I) : bool :=
  eqb (to_size (foldl sum (prod g l) (int64 0)))
      (umul (usize 2) (sn1 (last_index l))).

(** [foldl(sum, prod(f, ls), int64_t{}) == sn2(ls.size()-1)] *)
Definition check_squares (l : list I) : bool :=
  eqb (to_size (foldl sum (prod f l) (int64 0)))
      (sn2 (last_index l)).

(** The two sides of the third check:
    [ls.size() * sigma_squares(ls) - sigma_sqr(ls)], computed at [size_t],
    and [sigma_dx2(ls) / 2], computed at [int64_t]. *)
Definition pairwise_lhs (l : list I) : I :=
  usub (umul (size_of l) (to_size (sigma_squares l)))
       (to_size (sigma_sqr l)).
Definition pairwise_rhs (l : list I) : I :=
  quo (sigma_dx2 l) (int64 2).

(** [lhs == rhs]: the right-hand side is converted to [size_t]. *)
Definition check_pairwise (l : list I) : bool :=
  eqb (pairwise_lhs l) (to_size (pairwise_rhs l)).
End Program.

(** ** [prod] over a store of list objects

    [prod] takes its list [x] by value.  The executor below keeps the live
    [std::list] objects in a store (the innermost parameter last) and a log
    of the values the function argument was applied to.  A call names its
    argument by the address of the object the caller passes; the parameter
    is a new object, copy-constructed from it and destroyed on return. *)

Record store (X : Type) := Store {
  objects : list (list X);
  applied : list X
}.
Arguments Store {X} _ _.
Arguments objects {X} _.
Arguments applied {X} _.

Section Executor.
Context {X U : Type}.

(** Copy-construct a new object holding [v]; its address is the former
    number of objects. *)
Definition alloc (v : list X) (m : store X) : store X :=
  Store (objects m ++ [v]) (applied m).

(** Destroy the innermost object. *)
Definition release (m : store X) : store X :=
  Store (take (pred (length (objects m))) (objects m)) (applied m).

(** [x.pop_front()] on the object at address [a]. *)
Definition pop_front (a : nat) (m : store X) : store X :=
  match objects m !! a with
  | Some (_ :: rest) => Store (<[a := rest]> (objects m)) (applied m)
  | _ => m
  end.

(** One application of the function argument to [v]. *)
Definition record (v : X) (m : store X) : store X :=
  Store (objects m) (applied m ++ [v]).

(** The body of [prod], with [fuel] bounding the depth of the recursion;
    [arg] is the address of the list the caller passes. *)
Fixpoint prod_exec (fuel : nat) (f : X -> list U) (arg : nat) (m : store X)
  : option (list U * store X) :=
  match fuel with
  | O => None
  | S fuel' =>
      match objects m !! arg with
      | None => None
      | Some v =>
          let x := length (objects m) in
          let m := alloc v m in
          match objects m !! x with
          | None => None
          | Some [] => Some ([], release m)
          | Some (front :: _) =>
              let y := f front in
              let m := record front m in
              let m := pop_front x m in
              match prod_exec fuel' f x m with
              | None => None
              | Some (r, m) => Some (y ++ r, release m)
              end
          end
      end
  end.

(** A call with as much fuel as the argument has elements, plus one for
    the call that finds it empty. *)
Definition prod_run (f : X -> list U) (arg : nat) (m : store X)
  : option (list U * store X) :=
  match objects m !! arg with
  | None => None
  | Some v => prod_exec (S (length v)) f arg m
  end.
End Executor.

(** ** [main] *)

(** Standard output as the list of strings printed so far; a computation
    returns a value and the extended output. *)
Definition Out (A : Type) : Type := list string -> A * list string.

#[export] Instance Out_ret : MRet Out := fun A a out => (a, out).
#[export] Instance Out_bind : MBind Out :=
  fun A B k c out => let (a, out') := c out in k a out'.

Definition printf (s : string) : Out () := fun out => (tt, out ++ [s]).

Definition nl : string := String (ascii_of_nat 10) EmptyString.

(** [%d]: the argument read as a 32-bit signed integer, in decimal. *)
Definition wrap32 (z : Z) : Z := (z + 2 ^ 31) mod 2 ^ 32 - 2 ^ 31.
Definition fmt_d (z : Z) : string := NilZero.string_of_int (Z.to_int (wrap32 z)).

Definition confirmation : list string :=
  [ (nl ++ "left identity, right identity, associativity laws valid." ++ nl)%string;
    ("... so, it is a monad after all!" ++ nl)%string;
    ("... so, we can now start playing and pay the consequences!" ++ nl)%string ].

Definition line_doubles (n : Z) (ok : bool) : string :=
  ("Sum of doubles of integer sequence 0,1,2,3,...," ++ fmt_d n ++ " test: "
   ++ (if ok then "true" else "false") ++ nl)%string.

Definition line_squares (n : Z) (ok : bool) : string :=
  ("Sum of squares of integer sequence 0,1,2,3,...," ++ fmt_d n ++ " test: "
   ++ (if ok then "true" else "false") ++ nl)%string.

Definition line_pairwise (ok : bool) : string :=
  ("Sum of squares vs square of sums (provided no overflow): "
   ++ (if ok then "true" else "false (you overflowed it!)") ++ nl ++ nl)%string.

(** The body of [main] after [ls], [f] and [g] are built, with the three law
    checks and the sequence as parameters: the [if] on the folded checks
    encloses the three confirmation lines; the three arithmetic lines follow
    it; the function returns [{}], the [int] zero. *)
Definition main_of (law1 law2 law3 : Z -> bool) (ls : list Z) : Out Z :=
  (if foldl (laws_check_of law1 law2 law3) ls true
   then printf (nl ++ "left identity, right identity, associativity laws valid." ++ nl);;
        printf ("... so, it is a monad after all!" ++ nl);;
        printf ("... so, we can now start playing and pay the consequences!" ++ nl)
   else mret tt);;
  printf (line_doubles (last_index ls) (check_doubles ls));;
  printf (line_squares (last_index ls) (check_squares ls));;
  printf (line_pairwise (check_pairwise ls));;
  mret 0.

Definition main : Out Z := main_of law1 law2 law3 ls.

(** What a run leaves on standard output, and its exit status. *)
Definition output {A : Type} (c : Out A) : list string := snd (c []).
Definition exit_status (c : Out Z) : Z := fst (c []).

(** The three lines the arithmetic demonstration prints for a sequence. *)
Definition demonstration (ls : list Z) : list string :=
  [ line_doubles (last_index ls) (check_doubles ls);
    line_squares (last_index ls) (check_squares ls);
    line_pairwise (check_pairwise ls) ].

(** ** Reference notions for the arithmetic properties *)

(** The mathematical sum of a list of integers. *)
Definition total (l : list Z) : Z := fold_right Z.add 0 l.

(** [first, first+1, ..., first+n-1] *)
Fixpoint zseq (first : Z) (n : nat) : list Z :=
  match n with
  | O => []
  | S n' => first :: zseq (first + 1) n'
  end.

(** The sum of [(w - z)^2] over all [z] of [l'] and all [w] of [l]. *)
Definition pair_total (l l' : list Z) : Z :=
  total (map (fun z => total (map (fun w => (w - z) * (w - z)) l)) l').

(** Equality modulo 2^64. *)
Definition congruent (a b : Z) : Prop := exists k, a = b + 2 ^ 64 * k.

(** [std::list<int64_t> ls(n); std::iota(ls.begin(), ls.end(), 0);] for a
    length [n]; [ls] is [ls_of 100]. *)
Definition ls_of (n : nat) : list Z := iota (repeat (int64 0) n) 0.

(** * Properties *)

(** ** The sequence operations *)

Lemma prod_app {X U : Type} (f : X -> list U) (a b : list X) :
  prod f (a ++ b) = prod f a ++ prod f b.
Proof.
  induction a as [|x a IH]; simpl; [reflexivity|].
  rewrite IH. apply app_assoc.
Qed.

Section ProdFacts.
Context {X U V : Type}.

Lemma prod_concat (f : X -> list U) (xs : list X) :
  prod f xs = concat (map f xs).
Proof.
  induction xs as [|x xs IH]; simpl; congruence.
Qed.

Lemma prod_unit_l (f : X -> list U) (x : X) : prod f (unit x) = f x.
Proof. simpl. apply app_nil_r. Qed.

Lemma prod_unit_r (xs : list X) : prod unit xs = xs.
Proof.
  induction xs as [|x xs IH]; simpl; [reflexivity|]. now rewrite IH.
Qed.

Lemma prod_assoc (f : U -> list V) (g : X -> list U) (xs : list X) :
  prod f (prod g xs) = prod (fun y => prod f (g y)) xs.
Proof.
  induction xs as [|x xs IH]; simpl; [reflexivity|].
  now rewrite prod_app, IH.
Qed.

Lemma list_eq_refl (eq : X -> X -> bool) (l : list X) :
  (forall x, eq x x = true) -> list_eq eq l l = true.
Proof.
  intros Hrefl. induction l as [|x l IH]; simpl; [reflexivity|].
  now rewrite Hrefl, IH.
Qed.

Lemma list_eq_of_eq (eq : X -> X -> bool) (a b : list X) :
  (forall x, eq x x = true) -> a = b -> list_eq eq a b = true.
Proof. intros Hrefl ->. now apply list_eq_refl. Qed.
End ProdFacts.

Lemma fmap_map {X : Type} (f : X -> X) (xs : list X) : fmap f xs = map f xs.
Proof.
  unfold fmap. induction xs as [|x xs IH]; simpl; [reflexivity|].
  now rewrite IH.
Qed.

(** ** The executor agrees with [prod] and restores the store *)

Section ExecutorFacts.
Context {X U : Type}.

Lemma release_alloc (v : list X) (m : store X) :
  release (alloc v m) = m.
Proof.
  destruct m as [objs log]. unfold release, alloc; simpl.
  rewrite length_app; simpl. rewrite Nat.add_1_r; simpl.
  now rewrite take_app_length.
Qed.

Lemma pop_front_alloc (front : X) (rest : list X) (m : store X) :
  pop_front (length (objects m)) (alloc (front :: rest) m) = alloc rest m.
Proof.
  unfold pop_front, alloc; simpl.
  rewrite list_lookup_middle by reflexivity.
  rewrite insert_app_r_alt by lia.
  now rewrite Nat.sub_diag.
Qed.

Lemma prod_exec_spec (f : X -> list U) (fuel : nat) :
  forall (xs : list X) (a : nat) (m : store X),
    objects m !! a = Some xs ->
    (length xs < fuel)%nat ->
    prod_exec fuel f a m
    = Some (prod f xs, Store (objects m) (applied m ++ xs)).
Proof.
  induction fuel as [|fuel IH]; intros xs a m Ha Hlt; [lia|].
  simpl. rewrite Ha.
  change (objects (alloc xs m)) with (objects m ++ [xs]).
  rewrite list_lookup_middle by reflexivity.
  destruct xs as [|front rest].
  - rewrite release_alloc, app_nil_r. now destruct m.
  - change (record front (alloc (front :: rest) m))
      with (alloc (front :: rest) (record front m)).
    change (length (objects m)) with (length (objects (record front m))).
    rewrite pop_front_alloc.
    rewrite (IH rest); simpl in *; [| now apply list_lookup_middle | lia].
    rewrite <- (app_assoc (applied m) [front] rest); simpl.
    change (Store (objects m ++ [rest]) (applied m ++ front :: rest))
      with (alloc rest (Store (objects m) (applied m ++ front :: rest))).
    now rewrite release_alloc.
Qed.

Lemma prod_run_spec (f : X -> list U) (xs : list X) (a : nat) (m : store X) :
  objects m !! a = Some xs ->
  prod_run f a m = Some (prod f xs, Store (objects m) (applied m ++ xs)).
Proof.
  intros Ha. unfold prod_run. rewrite Ha.
  apply prod_exec_spec; [assumption | lia].
Qed.
End ExecutorFacts.

(** ** Laws of the fold and of [main] *)

Lemma foldl_laws_check (law1 law2 law3 : Z -> bool) (l : list Z) (s : bool) :
  foldl (laws_check_of law1 law2 law3) l s
  = s && forallb (fun x => law1 x && law2 x && law3 x) l.
Proof.
  revert s. induction l as [|x l IH]; intros s; simpl.
  - now rewrite andb_true_r.
  - rewrite IH. unfold laws_check_of.
    destruct s, (law1 x), (law2 x), (law3 x); reflexivity.
Qed.

Lemma main_of_run (law1 law2 law3 : Z -> bool) (l : list Z) (out : list string) :
  main_of law1 law2 law3 l out
  = (0, out
        ++ (if foldl (laws_check_of law1 law2 law3) l true
            then confirmation else [])
        ++ demonstration l).
Proof.
  unfold main_of, mbind, Out_bind, mret, Out_ret, printf, confirmation,
    demonstration.
  destruct (foldl (laws_check_of law1 law2 law3) l true); simpl;
    repeat rewrite <- app_assoc; reflexivity.
Qed.

Lemma law1_all (x : Z) : law1 x = true.
Proof.
  unfold law1. apply list_eq_of_eq; [apply Z.eqb_refl | apply prod_unit_l].
Qed.

Lemma law2_all (x : Z) : law2 x = true.
Proof.
  unfold law2. apply list_eq_of_eq; [apply Z.eqb_refl |].
  exact (prod_unit_r (unit x)).
Qed.

Lemma law3_all (x : Z) : law3 x = true.
Proof.
  unfold law3. apply list_eq_of_eq; [apply Z.eqb_refl | apply prod_assoc].
Qed.

(** ** The arithmetic checks on the generated sequence *)

(** The sum over all ordered pairs of the squared differences, on 0..99:
    as the program computes it, and with every operation checked exact. *)
Lemma sigma_dx2_machine : sigma_dx2 (@ls Z machine) = 16665000.
Proof. vm_compute. reflexivity. Qed.

Lemma sigma_dx2_exact : sigma_dx2 (@ls (option Z) exact) = Some 16665000.
Proof. vm_compute. reflexivity. Qed.

Lemma check_pairwise_ls : check_pairwise (@ls Z machine) = true.
Proof.
  unfold check_pairwise, pairwise_rhs. rewrite sigma_dx2_machine.
  vm_compute. reflexivity.
Qed.

(** * The claims *)

(** C1: for every function [f] and every finite sequence [xs], [prod f xs]
    is the concatenation, in input order, of [f x] for the elements [x] of
    [xs].  Run on a store in which the argument object holds [xs], the call
    returns that concatenation, applies [f] exactly to the elements of [xs]
    in order, and, when [xs] is empty, returns the empty sequence and leaves
    the log of applications of [f] as it was: [f] is not invoked. *)
Theorem prod_concatenates_in_order {X U : Type}
    (f : X -> list U) (xs : list X) (a : nat) (m : store X) :
  objects m !! a = Some xs ->
  prod f xs = concat (map f xs)
  /\ prod_run f a m
     = Some (concat (map f xs), Store (objects m) (applied m ++ xs))
  /\ (xs = [] -> prod f xs = [] /\ prod_run f a m = Some ([], m)).
Proof.
  intros Ha. split; [apply prod_concat|]. split.
  - rewrite <- prod_concat. now apply prod_run_spec.
  - intros ->. split; [reflexivity|].
    rewrite (prod_run_spec f [] a m Ha); simpl.
    rewrite app_nil_r. now destruct m.
Qed.

(** The statement of C1 at [g] and the sequences 1,2,3 and the empty one. *)
Lemma prod_concatenates_in_order_witness :
  (prod (@g Z _) [1; 2; 3] = concat (map g [1; 2; 3])
   /\ prod_run (@g Z _) 0%nat (Store [[1; 2; 3]] [])
      = Some (concat (map g [1; 2; 3]), Store [[1; 2; 3]] ([] ++ [1; 2; 3]))
   /\ ([1; 2; 3] = [] ->
       prod (@g Z _) [1; 2; 3] = []
       /\ prod_run (@g Z _) 0%nat (Store [[1; 2; 3]] [])
          = Some ([], Store [[1; 2; 3]] [])))
  /\ (prod (@g Z _) [] = []
      /\ prod_run (@g Z _) 0%nat (Store [[]] [7]) = Some ([], Store [[]] [7])).
Proof.
  split.
  - exact (prod_concatenates_in_order g [1; 2; 3] 0%nat
             (Store [[1; 2; 3]] []) eq_refl).
  - exact (proj2 (proj2 (prod_concatenates_in_order g [] 0%nat
                           (Store [[]] [7]) eq_refl)) eq_refl).
Defined.

(** C2: associativity.  For every [x] of the generated sequence, the check
    [law3] is true and [prod f (prod g (unit x))] equals
    [prod (fun y => prod f (g y)) (unit x)]. *)
Theorem associativity_on_tested_values (x : Z) :
  In x ls ->
  law3 x = true
  /\ prod f (prod g (unit x)) = prod (fun y => prod f (g y)) (unit x).
Proof.
  intros _. split; [apply law3_all | apply prod_assoc].
Qed.

(** C2 at the tested value 3. *)
Lemma associativity_on_tested_values_witness :
  In 3 (@ls Z _)
  /\ law3 3 = true
  /\ prod f (prod g (unit 3)) = prod (fun y => prod f (g y)) (unit 3).
Proof.
  assert (Hin : In 3 (@ls Z _)) by (do 3 right; left; reflexivity).
  exact (conj Hin (associativity_on_tested_values 3 Hin)).
Defined.

(** C3: left identity.  For every [x] of the generated sequence, the check
    [law1] is true and [prod f (unit x)] equals [f x]. *)
Theorem left_identity_on_tested_values (x : Z) :
  In x ls ->
  law1 x = true /\ prod f (unit x) = f x.
Proof.
  intros _. split; [apply law1_all | apply prod_unit_l].
Qed.

(** C3 at the tested value 99. *)
Lemma left_identity_on_tested_values_witness :
  In 99 (@ls Z _) /\ law1 99 = true /\ prod f (unit 99) = f 99.
Proof.
  assert (Hin : In 99 (@ls Z _)) by (do 99 right; left; reflexivity).
  exact (conj Hin (left_identity_on_tested_values 99 Hin)).
Defined.

(** C4: right identity.  For every [x] of the generated sequence, the check
    [law2] is true and [prod unit (unit x)] equals [unit x]. *)
Theorem right_identity_on_tested_values (x : Z) :
  In x ls ->
  law2 x = true /\ prod unit (unit x) = unit x.
Proof.
  intros _. split; [apply law2_all | apply prod_unit_r].
Qed.

(** C4 at the tested value 0. *)
Lemma right_identity_on_tested_values_witness :
  In 0 (@ls Z _) /\ law2 0 = true /\ prod unit (unit 0) = unit 0.
Proof.
  assert (Hin : In 0 (@ls Z _)) by (left; reflexivity).
  exact (conj Hin (right_identity_on_tested_values 0 Hin)).
Defined.

(** C5, as stated, fails: with a first law check that is false at the
    tested value 57, the fold of the checks over the sequence is false, and
    the run still prints the three lines of the arithmetic demonstration
    (and only those). *)
Lemma demonstration_runs_when_a_law_fails :
  let broken := fun x : Z => negb (x =? 57) in
  In 57 (@ls Z _)
  /\ broken 57 = false
  /\ foldl (laws_check_of broken law2 law3) ls true = false
  /\ output (main_of broken law2 law3 ls)
     = [ line_doubles 99 true; line_squares 99 true; line_pairwise true ].
Proof.
  intros broken. split; [do 57 right; left; reflexivity|].
  split; [reflexivity|]. split; [vm_compute; reflexivity|].
  unfold output. rewrite main_of_run. unfold demonstration.
  rewrite check_pairwise_ls. vm_compute. reflexivity.
Qed.

(** C5, amended: the three confirmation lines are printed only if the
    conjunction of the three law checks holds for every element of the
    sequence; the three lines of the arithmetic demonstration are printed
    after them in either case. *)
Theorem confirmation_is_gated_demonstration_is_not
    (law1 law2 law3 : Z -> bool) (l : list Z) :
  output (main_of law1 law2 law3 l)
  = (if forallb (fun x => law1 x && law2 x && law3 x) l
     then confirmation else [])
    ++ demonstration l.
Proof.
  unfold output. rewrite main_of_run, foldl_laws_check. reflexivity.
Qed.

(** C6, as stated, fails: after [prod(g, ls)] on a store holding [ls], the
    object the caller passed still holds the hundred integers; it has not
    been emptied. *)
Lemma prod_does_not_empty_the_callers_list :
  exists r m',
    prod_run (@g Z _) 0%nat (Store [ls] []) = Some (r, m')
    /\ objects m' !! 0%nat = Some ls
    /\ objects m' !! 0%nat <> Some []
    /\ length (@ls Z _) = 100%nat.
Proof.
  eexists _, _. split; [vm_compute; reflexivity|].
  split; [reflexivity|]. split; [discriminate | reflexivity].
Qed.

(** The two calls of [main] that pass [ls] itself to [prod], one after the
    other: [prod(g, ls)] and [prod(f, ls)], with [ls] at address [a]. *)
Definition prod_g_then_prod_f (a : nat) (m : store Z)
  : option (list Z * list Z * store Z) :=
  match prod_run g a m with
  | None => None
  | Some (doubles, m) =>
      match prod_run f a m with
      | None => None
      | Some (squares, m) => Some (doubles, squares, m)
      end
  end.

(** C6, amended: [prod] takes its sequence by value.  A call [prod(f, xs)]
    works on a copy of its own and returns the concatenation while every
    list object of the caller, [xs] included, is left exactly as it was; so
    [ls] still holds the generated integers after [prod(g, ls)], and
    [prod(f, ls)] reads them again. *)
Theorem prod_leaves_the_callers_list {X U : Type}
    (f0 : X -> list U) (xs : list X) (a : nat) (m : store X) :
  objects m !! a = Some xs ->
  (exists m',
     prod_run f0 a m = Some (prod f0 xs, m')
     /\ objects m' = objects m
     /\ objects m' !! a = Some xs)
  /\ forall (b : nat) (n : store Z),
       objects n !! b = Some ls ->
       exists n',
         prod_g_then_prod_f b n = Some (prod g ls, prod f ls, n')
         /\ objects n' = objects n.
Proof.
  intros Ha. split.
  - eexists. split; [now apply prod_run_spec|]. simpl. now split.
  - intros b n Hb. unfold prod_g_then_prod_f.
    rewrite (prod_run_spec g ls b n Hb).
    rewrite (prod_run_spec f ls b (Store (objects n) (applied n ++ ls)) Hb).
    eexists. split; reflexivity.
Qed.

(** C6, amended, at [f] and a store of two lists, the argument second. *)
Lemma prod_leaves_the_callers_list_witness :
  (exists m',
     prod_run (@f Z _) 1%nat (Store [[9]; [1; 2; 3]] []) = Some (prod f [1; 2; 3], m')
     /\ objects m' = objects (Store [[9]; [1; 2; 3]] [])
     /\ objects m' !! 1%nat = Some [1; 2; 3])
  /\ forall (b : nat) (n : store Z),
       objects n !! b = Some ls ->
       exists n',
         prod_g_then_prod_f b n = Some (prod g ls, prod f ls, n')
         /\ objects n' = objects n.
Proof.
  exact (prod_leaves_the_callers_list f [1; 2; 3] 1%nat
           (Store [[9]; [1; 2; 3]] []) eq_refl).
Defined.

(** C7: for every sequence [xs] and every function [f], [fmap f xs] is the
    element-wise image of [xs]: it has the length of [xs] and its i-th
    element is [f] applied to the i-th element of [xs]. *)
Theorem fmap_is_elementwise {X : Type} (f0 : X -> X) (xs : list X) :
  fmap f0 xs = map f0 xs
  /\ length (fmap f0 xs) = length xs
  /\ forall i : nat, fmap f0 xs !! i = option_map f0 (xs !! i).
Proof.
  rewrite fmap_map. split; [reflexivity|]. split; [apply length_map|].
  induction xs as [|x xs IH]; intros [|i]; simpl; try reflexivity.
  apply IH.
Qed.

(** C8: on the generated sequence 0..99 the third check of [main] is true;
    evaluated with overflow detection, every operation on both sides is
    exact, and both sides are 8332500, that is 100 * 328350 - 4950 ^ 2 on
    the left and 16665000 / 2 on the right. *)
Theorem pairwise_identity_holds_without_overflow :
  check_pairwise (@ls Z machine) = true
  /\ pairwise_lhs (@ls (option Z) exact) = Some 8332500
  /\ pairwise_rhs (@ls (option Z) exact) = Some 8332500
  /\ sigma_squares (@ls (option Z) exact) = Some 328350
  /\ sigma_sqr (@ls (option Z) exact) = Some (4950 ^ 2)
  /\ sigma_dx2 (@ls (option Z) exact) = Some 16665000
  /\ pairwise_lhs (@ls Z machine) = 8332500
  /\ pairwise_rhs (@ls Z machine) = 8332500
  /\ length (@ls Z machine) = 100%nat
  /\ 100 * 328350 - 4950 ^ 2 = 16665000 / 2.
Proof.
  split; [apply check_pairwise_ls|].
  split; [vm_compute; reflexivity|].
  split; [unfold pairwise_rhs; rewrite sigma_dx2_exact; reflexivity|].
  split; [vm_compute; reflexivity|].
  split; [vm_compute; reflexivity|].
  split; [apply sigma_dx2_exact|].
  split; [vm_compute; reflexivity|].
  split; [unfold pairwise_rhs; rewrite sigma_dx2_machine; reflexivity|].
  split; reflexivity.
Qed.

(** C9: whatever the three law checks answer and whatever sequence the
    arithmetic checks run on, [main] returns with status 0; so does the
    program itself. *)
Theorem exit_status_is_always_success
    (law1 law2 law3 : Z -> bool) (l : list Z) :
  exit_status (main_of law1 law2 law3 l) = 0
  /\ exit_status main = 0.
Proof.
  unfold main, exit_status. now rewrite !main_of_run.
Qed.

(** C10: right identity for every finite sequence: [prod unit xs] is [xs],
    and on sequences of integers the two compare equal under [==]. *)
Theorem right_identity_on_every_sequence {X : Type} (xs : list X) :
  prod unit xs = xs
  /\ forall zs : list Z, list_eq eqb (prod unit zs) zs = true.
Proof.
  split; [apply prod_unit_r|].
  intros zs. apply list_eq_of_eq; [apply Z.eqb_refl | apply prod_unit_r].
Qed.

(** * Arithmetic modulo 2^64 and the generated sequences *)
(** ** Wrap-around arithmetic *)

Lemma wrap64_rep (a : Z) : exists k, wrap64 a = a + 2 ^ 64 * k.
Proof.
  exists (- ((a + 2 ^ 63) / 2 ^ 64)). unfold wrap64.
  rewrite Z.mod_eq by lia. lia.
Qed.

Lemma wrap64_cong (a b k : Z) : a = b + 2 ^ 64 * k -> wrap64 a = wrap64 b.
Proof.
  intros ->. unfold wrap64. f_equal.
  replace (b + 2 ^ 64 * k + 2 ^ 63) with (b + 2 ^ 63 + k * 2 ^ 64) by lia.
  apply Z.mod_add. lia.
Qed.

Lemma wrap64_small (a : Z) : - 2 ^ 63 <= a < 2 ^ 63 -> wrap64 a = a.
Proof.
  intros Ha. unfold wrap64. rewrite Z.mod_small by lia. lia.
Qed.

Lemma wrap64_range (a : Z) : - 2 ^ 63 <= wrap64 a < 2 ^ 63.
Proof.
  unfold wrap64. pose proof (Z.mod_pos_bound (a + 2 ^ 63) (2 ^ 64)). lia.
Qed.

Lemma wrapu64_rep (a : Z) : exists k, wrapu64 a = a + 2 ^ 64 * k.
Proof.
  exists (- (a / 2 ^ 64)). unfold wrapu64. rewrite Z.mod_eq by lia. lia.
Qed.

Lemma wrapu64_cong (a b k : Z) : a = b + 2 ^ 64 * k -> wrapu64 a = wrapu64 b.
Proof.
  intros ->. unfold wrapu64.
  replace (b + 2 ^ 64 * k) with (b + k * 2 ^ 64) by lia.
  apply Z.mod_add. lia.
Qed.

Lemma wrapu64_small (a : Z) : 0 <= a < 2 ^ 64 -> wrapu64 a = a.
Proof. intros Ha. unfold wrapu64. now apply Z.mod_small. Qed.

Lemma total_cons (x : Z) (l : list Z) : total (x :: l) = x + total l.
Proof. reflexivity. Qed.

Lemma total_app (a b : list Z) : total (a ++ b) = total a + total b.
Proof. induction a as [|x a IH]; simpl; lia. Qed.

Lemma prod_singleton {X U : Type} (h : X -> U) (l : list X) :
  prod (fun y => unit (h y)) l = map h l.
Proof. induction l as [|x l IH]; simpl; congruence. Qed.

Lemma iota_zseq (d : Z) (n : nat) (v : Z) :
  iota (repeat d n) v = map wrap64 (zseq v n).
Proof.
  revert v. induction n as [|n IH]; intros v; simpl; [reflexivity|].
  now rewrite IH.
Qed.

Lemma foldl_sum_total (xs : list Z) (y : Z) :
  foldl sum xs (wrap64 y) = wrap64 (y + total xs).
Proof.
  revert y. induction xs as [|x xs IH]; intros y; cbn [foldl total fold_right].
  - f_equal. lia.
  - change (sum (wrap64 y) x) with (wrap64 (wrap64 y + x)).
    destruct (wrap64_rep y) as [k Hk].
    rewrite (wrap64_cong (wrap64 y + x) (y + x) k) by lia.
    rewrite IH. f_equal. unfold total. lia.
Qed.

(** Sums of wrapped terms agree with sums of exact terms modulo 2^64. *)
Lemma total_map_cong (h' h : Z -> Z) (l : list Z) :
  (forall x, exists k, h' x = h x + 2 ^ 64 * k) ->
  exists k, total (map h' l) = total (map h l) + 2 ^ 64 * k.
Proof.
  intros Hh. induction l as [|x l [k IH]]; simpl.
  - exists 0. lia.
  - destruct (Hh x) as [k' Hk']. exists (k' + k). lia.
Qed.

Lemma total_map_wrap (h' h : Z -> Z) (l : list Z) :
  (forall x, exists k, h' (wrap64 x) = h x + 2 ^ 64 * k) ->
  exists k, total (map h' (map wrap64 l)) = total (map h l) + 2 ^ 64 * k.
Proof.
  intros Hh. rewrite map_map. now apply total_map_cong.
Qed.

(** Closed forms over [zseq]. *)
Lemma total_zseq (v : Z) (n : nat) :
  2 * total (zseq v n) = 2 * Z.of_nat n * v + Z.of_nat n * (Z.of_nat n - 1).
Proof.
  revert v. induction n as [|n IH]; intros v; [simpl; lia|].
  cbn [zseq total fold_right]. specialize (IH (v + 1)).
  unfold total in IH. lia.
Qed.

Lemma total_doubles_zseq (v : Z) (n : nat) :
  total (map (fun x => x + x) (zseq v n))
  = 2 * Z.of_nat n * v + Z.of_nat n * (Z.of_nat n - 1).
Proof.
  revert v. induction n as [|n IH]; intros v; [simpl; lia|].
  cbn [zseq map total fold_right]. specialize (IH (v + 1)).
  unfold total in IH. lia.
Qed.

Lemma total_squares_zseq (v : Z) (n : nat) :
  6 * total (map (fun x => x * x) (zseq v n))
  = 6 * Z.of_nat n * v * v + 6 * v * Z.of_nat n * (Z.of_nat n - 1)
    + (Z.of_nat n - 1) * Z.of_nat n * (2 * Z.of_nat n - 1).
Proof.
  revert v. induction n as [|n IH]; intros v; [simpl; lia|].
  cbn [zseq map total fold_right]. specialize (IH (v + 1)).
  unfold total in IH. nia.
Qed.

(** ** The closed forms [sn1], [sn2] and [ls.size() - 1] *)

Lemma size_of_small (l : list Z) :
  Z.of_nat (length l) < 2 ^ 64 -> size_of l = Z.of_nat (length l).
Proof. intros Hn. apply wrapu64_small. lia. Qed.

Lemma last_index_small (l : list Z) :
  1 <= Z.of_nat (length l) < 2 ^ 64 ->
  last_index l = Z.of_nat (length l) - 1.
Proof.
  intros Hn. unfold last_index. rewrite size_of_small by lia.
  change (usub (Z.of_nat (length l)) (usize 1))
    with (wrapu64 (Z.of_nat (length l) - 1)).
  apply wrapu64_small. lia.
Qed.

Lemma sn1_small (x : Z) :
  0 <= x -> x * (x + 1) < 2 ^ 64 -> sn1 x = x * (x + 1) / 2.
Proof.
  intros Hx Hb. unfold sn1.
  change (uquo (umul x (uadd x (usize 1))) (usize 2))
    with (wrapu64 (Z.quot (wrapu64 (x * wrapu64 (x + 1))) 2)).
  assert (Hx1 : x + 1 < 2 ^ 64) by nia.
  rewrite (wrapu64_small (x + 1)) by lia.
  rewrite (wrapu64_small (x * (x + 1))) by nia.
  rewrite Z.quot_div_nonneg by nia.
  apply wrapu64_small. split.
  - apply Z.div_pos; nia.
  - apply Z.div_lt_upper_bound; nia.
Qed.

Lemma sn2_small (x : Z) :
  0 <= x -> x * (x + 1) * (2 * x + 1) < 2 ^ 64 ->
  sn2 x = x * (x + 1) * (2 * x + 1) / 6.
Proof.
  intros Hx Hb. unfold sn2.
  change (uquo (umul (umul x (uadd x (usize 1)))
                     (uadd (umul (usize 2) x) (usize 1))) (usize 6))
    with (wrapu64 (Z.quot (wrapu64 (wrapu64 (x * wrapu64 (x + 1))
                                    * wrapu64 (wrapu64 (2 * x) + 1))) 6)).
  assert (H1 : x * (x + 1) <= x * (x + 1) * (2 * x + 1)) by nia.
  assert (H2 : 2 * x + 1 <= x * (x + 1) * (2 * x + 1) \/ x = 0) by nia.
  assert (H3 : 2 * x + 1 < 2 ^ 64) by lia.
  rewrite (wrapu64_small (x + 1)) by lia.
  rewrite (wrapu64_small (x * (x + 1))) by nia.
  rewrite (wrapu64_small (2 * x)) by lia.
  rewrite (wrapu64_small (2 * x + 1)) by lia.
  rewrite (wrapu64_small (x * (x + 1) * (2 * x + 1))) by nia.
  rewrite Z.quot_div_nonneg by nia.
  apply wrapu64_small. split.
  - apply Z.div_pos; nia.
  - apply Z.div_lt_upper_bound; nia.
Qed.

Lemma length_iota (l : list Z) (v : Z) : length (iota l v) = length l.
Proof.
  revert v. induction l as [|x l IH]; intros v; simpl; [reflexivity|].
  now rewrite IH.
Qed.

Lemma length_ls_of (n : nat) : length (ls_of n) = n.
Proof. unfold ls_of. now rewrite length_iota, repeat_length. Qed.

Lemma sum_upto (n : nat) :
  foldl sum (ls_of n) (int64 0) = wrap64 (total (zseq 0 n)).
Proof.
  unfold ls_of. rewrite iota_zseq.
  change (int64 0) with (wrap64 0). rewrite foldl_sum_total.
  destruct (total_map_cong wrap64 (fun x => x) (zseq 0 n)) as [k Hk].
  { intros x. apply wrap64_rep. }
  rewrite map_id in Hk.
  apply (wrap64_cong _ _ k). lia.
Qed.

Lemma sum_doubles_upto (n : nat) :
  foldl sum (prod g (ls_of n)) (int64 0)
  = wrap64 (Z.of_nat n * (Z.of_nat n - 1)).
Proof.
  unfold ls_of. rewrite iota_zseq.
  change (prod g (map wrap64 (zseq 0 n)))
    with (prod (fun y => unit (wrap64 (y + y))) (map wrap64 (zseq 0 n))).
  rewrite prod_singleton.
  change (int64 0) with (wrap64 0). rewrite foldl_sum_total.
  destruct (total_map_wrap (fun x => wrap64 (x + x)) (fun x => x + x)
              (zseq 0 n)) as [k Hk].
  { intros x. destruct (wrap64_rep x) as [k1 H1].
    destruct (wrap64_rep (wrap64 x + wrap64 x)) as [k2 H2].
    exists (2 * k1 + k2). lia. }
  rewrite Hk, total_doubles_zseq. apply (wrap64_cong _ _ k). lia.
Qed.

Lemma sum_squares_upto (n : nat) :
  foldl sum (prod f (ls_of n)) (int64 0)
  = wrap64 (total (map (fun x => x * x) (zseq 0 n))).
Proof.
  unfold ls_of. rewrite iota_zseq.
  change (prod f (map wrap64 (zseq 0 n)))
    with (prod (fun y => unit (wrap64 (y * y))) (map wrap64 (zseq 0 n))).
  rewrite prod_singleton.
  change (int64 0) with (wrap64 0). rewrite foldl_sum_total.
  destruct (total_map_wrap (fun x => wrap64 (x * x)) (fun x => x * x)
              (zseq 0 n)) as [k Hk].
  { intros x. destruct (wrap64_rep x) as [k1 H1].
    destruct (wrap64_rep (wrap64 x * wrap64 x)) as [k2 H2].
    exists (2 * x * k1 + 2 ^ 64 * k1 * k1 + k2). rewrite H2, H1. ring. }
  rewrite Hk. apply (wrap64_cong _ _ k). lia.
Qed.

Lemma sum_ls_of (n : nat) :
  Z.of_nat n < 2 ^ 31 ->
  foldl sum (ls_of n) (int64 0) = Z.of_nat n * (Z.of_nat n - 1) / 2.
Proof.
  intros Hn. rewrite sum_upto.
  pose proof (total_zseq 0 n) as Ht.
  assert (Hq : Z.of_nat n * (Z.of_nat n - 1) / 2 = total (zseq 0 n)).
  { symmetry. apply Z.div_unique_exact; lia. }
  rewrite Hq. apply wrap64_small. nia.
Qed.

Lemma check_doubles_ls_of (n : nat) :
  Z.of_nat n < 2 ^ 31 ->
  check_doubles (ls_of n) = true
  /\ foldl sum (prod g (ls_of n)) (int64 0) = Z.of_nat n * (Z.of_nat n - 1).
Proof.
  intros Hn.
  assert (Hsum : foldl sum (prod g (ls_of n)) (int64 0)
                 = Z.of_nat n * (Z.of_nat n - 1)).
  { rewrite sum_doubles_upto. apply wrap64_small. nia. }
  split; [|exact Hsum].
  destruct n as [|n]; [reflexivity|].
  unfold check_doubles. rewrite Hsum.
  rewrite last_index_small by (rewrite length_ls_of; lia).
  rewrite length_ls_of.
  rewrite sn1_small by nia.
  change (eqb (to_size ?a) (umul (usize 2) ?b))
    with (Z.eqb (wrapu64 a) (wrapu64 (2 * b))).
  apply Z.eqb_eq. f_equal.
  pose proof (total_zseq 0 (S n)) as Ht.
  replace ((Z.of_nat (S n) - 1) * (Z.of_nat (S n) - 1 + 1))
    with (total (zseq 0 (S n)) * 2) by lia.
  rewrite Z.div_mul by lia. lia.
Qed.

Lemma check_squares_ls_of (n : nat) :
  Z.of_nat n <= 2 ^ 21 ->
  check_squares (ls_of n) = true
  /\ foldl sum (prod f (ls_of n)) (int64 0)
     = (Z.of_nat n - 1) * Z.of_nat n * (2 * Z.of_nat n - 1) / 6.
Proof.
  intros Hn.
  pose proof (total_squares_zseq 0 n) as Ht.
  assert (Hq : (Z.of_nat n - 1) * Z.of_nat n * (2 * Z.of_nat n - 1) / 6
               = total (map (fun x => x * x) (zseq 0 n))).
  { symmetry. apply Z.div_unique_exact; lia. }
  assert (Hb : 0 <= (Z.of_nat n - 1) * Z.of_nat n * (2 * Z.of_nat n - 1)
               < 2 ^ 64).
  { destruct n as [|n]; [simpl; lia|].
    assert (H1 : (Z.of_nat (S n) - 1) * Z.of_nat (S n) < 2 ^ 21 * 2 ^ 21) by nia.
    assert (H2 : 0 <= (Z.of_nat (S n) - 1) * Z.of_nat (S n)) by nia.
    assert (H3 : 0 < 2 * Z.of_nat (S n) - 1 <= 2 ^ 22) by lia.
    change (2 ^ 64) with (2 ^ 21 * 2 ^ 21 * 2 ^ 22). nia. }
  assert (Hsum : foldl sum (prod f (ls_of n)) (int64 0)
                 = (Z.of_nat n - 1) * Z.of_nat n * (2 * Z.of_nat n - 1) / 6).
  { rewrite sum_squares_upto, Hq. apply wrap64_small. lia. }
  split; [|exact Hsum].
  destruct n as [|n]; [reflexivity|].
  unfold check_squares. rewrite Hsum.
  rewrite last_index_small by (rewrite length_ls_of; lia).
  rewrite length_ls_of.
  replace ((Z.of_nat (S n) - 1) * Z.of_nat (S n) * (2 * Z.of_nat (S n) - 1))
    with ((Z.of_nat (S n) - 1) * (Z.of_nat (S n) - 1 + 1)
          * (2 * (Z.of_nat (S n) - 1) + 1)) in * by ring.
  rewrite sn2_small by lia.
  change (eqb (to_size ?a) ?b) with (Z.eqb (wrapu64 a) b).
  apply Z.eqb_eq. apply wrapu64_small. rewrite Hq.
  assert (0 <= total (map (fun x => x * x) (zseq 0 (S n)))) by lia. lia.
Qed.

(** ** Congruence modulo 2^64 *)

Lemma cg_refl (a : Z) : congruent a a.
Proof. exists 0. lia. Qed.

Lemma cg_trans (a b c : Z) : congruent a b -> congruent b c -> congruent a c.
Proof. intros [k ->] [k' ->]. exists (k + k'). lia. Qed.

Lemma cg_add (a a' b b' : Z) :
  congruent a a' -> congruent b b' -> congruent (a + b) (a' + b').
Proof. intros [k ->] [k' ->]. exists (k + k'). lia. Qed.

Lemma cg_sub (a a' b b' : Z) :
  congruent a a' -> congruent b b' -> congruent (a - b) (a' - b').
Proof. intros [k ->] [k' ->]. exists (k - k'). lia. Qed.

Lemma cg_mul (a a' b b' : Z) :
  congruent a a' -> congruent b b' -> congruent (a * b) (a' * b').
Proof.
  intros [k ->] [k' ->]. exists (a' * k' + k * b' + 2 ^ 64 * k * k'). ring.
Qed.

Lemma cg_wrap64 (a b : Z) : congruent a b -> congruent (wrap64 a) b.
Proof. intros H. eapply cg_trans; [apply wrap64_rep | exact H]. Qed.

Lemma cg_wrapu64 (a b : Z) : congruent a b -> congruent (wrapu64 a) b.
Proof. intros H. eapply cg_trans; [apply wrapu64_rep | exact H]. Qed.

Lemma wrap64_congruent (a b : Z) : congruent a b -> wrap64 a = wrap64 b.
Proof. intros [k Hk]. now apply (wrap64_cong a b k). Qed.

Lemma wrapu64_congruent (a b : Z) : congruent a b -> wrapu64 a = wrapu64 b.
Proof. intros [k Hk]. now apply (wrapu64_cong a b k). Qed.

Lemma cg_total_map (h' h : Z -> Z) (l : list Z) :
  (forall x, congruent (h' x) (h x)) ->
  congruent (total (map h' l)) (total (map h l)).
Proof. apply total_map_cong. Qed.

Create HintDb cg.
#[local] Hint Resolve cg_refl cg_add cg_sub cg_mul cg_wrap64 cg_wrapu64
  cg_total_map : cg.

(** ** Sums over [prod] and over pairs *)

Lemma total_prod (F : Z -> list Z) (l : list Z) :
  total (prod F l) = total (map (fun z => total (F z)) l).
Proof.
  induction l as [|z l IH]; [reflexivity|].
  cbn [prod map]. rewrite total_app, IH. reflexivity.
Qed.

Lemma total_shifted_squares (z : Z) (l : list Z) :
  total (map (fun w => (w - z) * (w - z)) l)
  = total (map (fun x => x * x) l) - 2 * z * total l
    + Z.of_nat (length l) * z * z.
Proof.
  induction l as [|w l IH]; [simpl; lia|].
  cbn [map length]. rewrite !total_cons, IH.
  rewrite Nat2Z.inj_succ. ring.
Qed.

Lemma pair_total_closed (l l' : list Z) :
  pair_total l l'
  = Z.of_nat (length l') * total (map (fun x => x * x) l)
    - 2 * total l * total l'
    + Z.of_nat (length l) * total (map (fun x => x * x) l').
Proof.
  unfold pair_total. induction l' as [|z l' IH]; [simpl; lia|].
  cbn [map length]. rewrite !total_cons, IH, total_shifted_squares.
  rewrite Nat2Z.inj_succ. ring.
Qed.

Lemma total_nonneg (h : Z -> Z) (l : list Z) :
  (forall x, 0 <= h x) -> 0 <= total (map h l).
Proof.
  intros Hh. induction l as [|x l IH]; [simpl; lia|].
  cbn [map]. rewrite total_cons. specialize (Hh x). lia.
Qed.

Lemma pair_total_nonneg (l l' : list Z) : 0 <= pair_total l l'.
Proof.
  unfold pair_total. apply total_nonneg. intros z.
  apply total_nonneg. intros w. apply Z.square_nonneg.
Qed.

Lemma sigma_dx2_congruent (l : list Z) :
  sigma_dx2 l = wrap64 (pair_total l l).
Proof.
  unfold sigma_dx2. change (int64 0) with (wrap64 0).
  rewrite foldl_sum_total, total_prod.
  apply wrap64_congruent. change (0 + ?a) with a.
  unfold pair_total. apply cg_total_map. intros z.
  change (par dx_sqr l z)
    with (prod (fun y => unit (wrap64 (wrap64 (y - z) * wrap64 (y - z)))) l).
  rewrite prod_singleton. auto 10 with cg.
Qed.

Lemma pairwise_lhs_congruent (l : list Z) :
  pairwise_lhs l
  = wrapu64 (Z.of_nat (length l) * total (map (fun x => x * x) l)
             - total l * total l).
Proof.
  unfold pairwise_lhs, sigma_squares, sigma_sqr, fmap.
  change (prod (fun y => unit (sqr y)) l)
    with (prod (fun y => unit (wrap64 (y * y))) l).
  rewrite prod_singleton.
  change (int64 0) with (wrap64 0). rewrite !foldl_sum_total.
  change (usub ?a ?b) with (wrapu64 (a - b)).
  apply wrapu64_congruent.
  change (umul ?a ?b) with (wrapu64 (a * b)).
  change (to_size ?a) with (wrapu64 a).
  change (sqr ?a) with (wrap64 (a * a)).
  change (size_of l) with (wrapu64 (Z.of_nat (length l))).
  change (0 + ?a) with a.
  auto 12 with cg.
Qed.

Lemma wrap64_zseq (v : Z) (n : nat) :
  - 2 ^ 63 <= v -> v + Z.of_nat n <= 2 ^ 63 ->
  map wrap64 (zseq v n) = zseq v n.
Proof.
  revert v. induction n as [|n IH]; intros v Hl Hu; [reflexivity|].
  cbn [zseq map]. rewrite wrap64_small by lia. rewrite IH by lia.
  reflexivity.
Qed.

Lemma length_zseq (v : Z) (n : nat) : length (zseq v n) = n.
Proof. revert v. induction n as [|n IH]; intros v; simpl; auto. Qed.

Lemma check_pairwise_in_range (l : list Z) :
  pair_total l l < 2 ^ 63 ->
  check_pairwise l = true
  /\ 2 * pairwise_rhs l = pair_total l l
  /\ pairwise_rhs l
     = Z.of_nat (length l) * total (map (fun x => x * x) l)
       - total l * total l.
Proof.
  intros Hb. pose proof (pair_total_nonneg l l) as Hp.
  pose proof (pair_total_closed l l) as Hc.
  set (D := Z.of_nat (length l) * total (map (fun x => x * x) l)
            - total l * total l) in *.
  assert (HD : pair_total l l = D * 2) by lia.
  assert (Hr : pairwise_rhs l = D).
  { unfold pairwise_rhs. rewrite sigma_dx2_congruent.
    rewrite wrap64_small by lia.
    change (quo ?a (int64 2)) with (wrap64 (Z.quot a 2)).
    rewrite HD, Z.quot_mul by lia. apply wrap64_small. lia. }
  split; [|split; [lia | exact Hr]].
  unfold check_pairwise. rewrite Hr, pairwise_lhs_congruent.
  fold D. apply Z.eqb_refl.
Qed.

Lemma pair_total_ls_of (n : nat) :
  Z.of_nat n <= 2 ^ 15 -> pair_total (ls_of n) (ls_of n) < 2 ^ 63.
Proof.
  intros Hn. unfold ls_of. rewrite iota_zseq, wrap64_zseq by lia.
  rewrite pair_total_closed, length_zseq.
  pose proof (total_squares_zseq 0 n) as Hq.
  pose proof (total_zseq 0 n) as Hs.
  assert (HQ0 : 0 <= total (map (fun x => x * x) (zseq 0 n))).
  { apply total_nonneg. intros x. apply Z.square_nonneg. }
  set (Q := total (map (fun x => x * x) (zseq 0 n))) in *.
  set (S := total (zseq 0 n)) in *. set (N := Z.of_nat n) in *.
  assert (HN : 0 <= N) by lia.
  assert (H2 : N * N <= 2 ^ 15 * 2 ^ 15) by nia.
  assert (HQ : 6 * Q <= 2 * (N * N) * N) by nia.
  assert (HQ' : 6 * Q <= 2 * (2 ^ 15 * 2 ^ 15) * 2 ^ 15) by nia.
  assert (HNQ : N * Q <= 2 ^ 15 * Q).
  { apply Z.mul_le_mono_nonneg_r; lia. }
  assert (HS : 0 <= S * S) by apply Z.square_nonneg.
  lia.
Qed.

Lemma laws_check_all (l : list Z) : foldl laws_check l true = true.
Proof.
  unfold laws_check. rewrite foldl_laws_check. simpl.
  induction l as [|x l IH]; simpl; [reflexivity|].
  now rewrite law1_all, law2_all, law3_all.
Qed.


Lemma list_eq_Z (a b : list Z) : list_eq Z.eqb a b = true <-> a = b.
Proof.
  revert b. induction a as [|x a IH]; intros [|y b]; simpl;
    try (split; [discriminate | discriminate]); [tauto|].
  rewrite andb_true_iff, Z.eqb_eq, IH. split.
  - now intros [-> ->].
  - intros [= -> ->]. now split.
Qed.

Lemma foldl_app {X Y : Type} (h : Y -> X -> Y) (a b : list X) (y : Y) :
  foldl h (a ++ b) y = foldl h b (foldl h a y).
Proof.
  revert y. induction a as [|x a IH]; intros y; simpl; [reflexivity|].
  apply IH.
Qed.

Lemma join_concat {X : Type} (xss : list (list X)) : join xss = concat xss.
Proof. unfold join. rewrite prod_concat. now rewrite map_id. Qed.

Section ExecutorDepth.
Context {X U : Type}.

Lemma prod_exec_out_of_fuel (h : X -> list U) (fuel : nat) :
  forall (xs : list X) (a : nat) (m : store X),
    objects m !! a = Some xs ->
    (fuel <= length xs)%nat ->
    prod_exec fuel h a m = None.
Proof.
  induction fuel as [|fuel IH]; intros xs a m Ha Hle; [reflexivity|].
  simpl. rewrite Ha.
  change (objects (alloc xs m)) with (objects m ++ [xs]).
  rewrite list_lookup_middle by reflexivity.
  destruct xs as [|front rest]; [simpl in Hle; lia|].
  change (record front (alloc (front :: rest) m))
    with (alloc (front :: rest) (record front m)).
  change (length (objects m)) with (length (objects (record front m))).
  rewrite pop_front_alloc.
  rewrite (IH rest); simpl in *; [reflexivity | now apply list_lookup_middle | lia].
Qed.
End ExecutorDepth.

(** * Further properties of the code *)

(** X1: [join] concatenates the sequences of its argument, in order. *)
Theorem join_concatenates {X : Type} (xss : list (list X)) :
  join xss = concat xss.
Proof. apply join_concat. Qed.

(** X2: the monad laws in their [join] form: flattening a one-element
    sequence of sequences, or a sequence of one-element sequences, gives the
    sequence back, and the two ways of flattening three levels agree. *)
Theorem join_laws {X : Type} (xs : list X) (xsss : list (list (list X))) :
  join (unit xs) = xs
  /\ join (map unit xs) = xs
  /\ join (join xsss) = join (map join xsss).
Proof.
  split; [apply (prod_unit_l (fun y => y) xs)|]. split.
  - unfold join. induction xs as [|x xs IH]; simpl; [reflexivity|].
    now rewrite IH.
  - unfold join. induction xsss as [|xss xsss IH]; simpl; [reflexivity|].
    now rewrite prod_app, IH.
Qed.

(** X3: [prod] is [join] after mapping: binding [f0] over a sequence flattens
    the sequence of the results of [f0]. *)
Theorem prod_is_join_of_map {X U : Type} (f0 : X -> list U) (xs : list X) :
  prod f0 xs = join (map f0 xs).
Proof.
  rewrite join_concat. apply prod_concat.
Qed.

(** X4: left identity and associativity of [prod] hold for all functions,
    all values and all sequences, at any element types, not only for the
    [f], [g] and one-element sequences that [main] tests. *)
Theorem prod_left_identity_and_associativity {X U V : Type}
    (f0 : U -> list V) (g0 : X -> list U) (x : X) (xs : list X) :
  prod g0 (unit x) = g0 x
  /\ prod f0 (prod g0 xs) = prod (fun y => prod f0 (g0 y)) xs.
Proof.
  split; [apply prod_unit_l | apply prod_assoc].
Qed.

(** X5: [prod] distributes over concatenation of its sequence argument. *)
Theorem prod_distributes_over_append {X U : Type}
    (f0 : X -> list U) (a b : list X) :
  prod f0 (a ++ b) = prod f0 a ++ prod f0 b.
Proof. apply prod_app. Qed.

(** X6: the length of [prod f0 xs] is the sum of the lengths of the results
    of [f0]; with the [f] and [g] of [main], which wrap one value, [prod]
    keeps the length of the sequence. *)
Theorem prod_length {X U : Type} (f0 : X -> list U) (xs : list X) :
  length (prod f0 xs) = list_sum (map (fun x => length (f0 x)) xs)
  /\ forall l : list Z,
       length (prod f l) = length l /\ length (prod g l) = length l.
Proof.
  split.
  - induction xs as [|x xs IH]; simpl; [reflexivity|].
    now rewrite length_app, IH.
  - intros l. split; induction l as [|x l IH]; simpl; congruence.
Qed.

(** X7: [fmap] is a functor: it maps the identity to the identity and a
    composition [dot f0 g0] to the composition of the mapped functions. *)
Theorem fmap_functor_laws {X : Type} (f0 g0 : X -> X) (xs : list X) :
  fmap (fun y => y) xs = xs
  /\ fmap (dot f0 g0) xs = fmap f0 (fmap g0 xs).
Proof.
  rewrite !fmap_map. split; [apply map_id|].
  unfold dot. now rewrite map_map.
Qed.

(** X8: [foldl] over a concatenation folds the second part starting from the
    fold of the first, and [foldl] processes the elements first to last
    (it is the library's left fold). *)
Theorem foldl_append {X Y : Type}
    (h : Y -> X -> Y) (a b : list X) (y : Y) :
  foldl h (a ++ b) y = foldl h b (foldl h a y)
  /\ foldl h a y = fold_left h a y.
Proof.
  split; [apply foldl_app|].
  revert y. induction a as [|x a IH]; intros y; simpl; [reflexivity|].
  apply IH.
Qed.

(** X9: summing with [foldl] and the 64-bit [sum] gives the mathematical sum
    wrapped once to 64 bits, whatever overflows happen on the way. *)
Theorem foldl_sum_is_wrapped_total (xs : list Z) (y : Z) :
  foldl sum xs (int64 y) = wrap64 (y + total xs).
Proof. apply foldl_sum_total. Qed.

(** X10: for a generated sequence 0..n-1 with n below 2^31, the fold of the
    sum is n(n-1)/2. *)
Theorem gauss_sum_of_generated_sequence (n : nat) :
  Z.of_nat n < 2 ^ 31 ->
  foldl sum (ls_of n) (int64 0) = Z.of_nat n * (Z.of_nat n - 1) / 2.
Proof. apply sum_ls_of. Qed.

Lemma gauss_sum_of_generated_sequence_witness :
  Z.of_nat 100 < 2 ^ 31
  /\ foldl sum (ls_of 100) (int64 0) = Z.of_nat 100 * (Z.of_nat 100 - 1) / 2.
Proof.
  assert (H : Z.of_nat 100 < 2 ^ 31) by reflexivity.
  exact (conj H (gauss_sum_of_generated_sequence 100 H)).
Defined.

(** X11: the first arithmetic check is true for every generated sequence
    0..n-1 with n below 2^31, the empty one included, and the sum of the
    doubles is n(n-1). *)
Theorem check_doubles_of_generated_sequence (n : nat) :
  Z.of_nat n < 2 ^ 31 ->
  check_doubles (ls_of n) = true
  /\ foldl sum (prod g (ls_of n)) (int64 0) = Z.of_nat n * (Z.of_nat n - 1).
Proof. apply check_doubles_ls_of. Qed.

Lemma check_doubles_of_generated_sequence_witness :
  Z.of_nat 100 < 2 ^ 31
  /\ check_doubles (ls_of 100) = true
  /\ foldl sum (prod g (ls_of 100)) (int64 0)
     = Z.of_nat 100 * (Z.of_nat 100 - 1).
Proof.
  assert (H : Z.of_nat 100 < 2 ^ 31) by reflexivity.
  exact (conj H (check_doubles_of_generated_sequence 100 H)).
Defined.

(** X12: the second arithmetic check is true for every generated sequence
    0..n-1 with n at most 2^21, the empty one included, and the sum of the
    squares is (n-1)n(2n-1)/6. *)
Theorem check_squares_of_generated_sequence (n : nat) :
  Z.of_nat n <= 2 ^ 21 ->
  check_squares (ls_of n) = true
  /\ foldl sum (prod f (ls_of n)) (int64 0)
     = (Z.of_nat n - 1) * Z.of_nat n * (2 * Z.of_nat n - 1) / 6.
Proof. apply check_squares_ls_of. Qed.

Lemma check_squares_of_generated_sequence_witness :
  Z.of_nat 100 <= 2 ^ 21
  /\ check_squares (ls_of 100) = true
  /\ foldl sum (prod f (ls_of 100)) (int64 0)
     = (Z.of_nat 100 - 1) * Z.of_nat 100 * (2 * Z.of_nat 100 - 1) / 6.
Proof.
  assert (H : Z.of_nat 100 <= 2 ^ 21) by discriminate.
  exact (conj H (check_squares_of_generated_sequence 100 H)).
Defined.

(** X13: the third arithmetic check is true for every sequence whose sum of
    squared pairwise differences fits in an [int64_t]; its right-hand side is
    then exactly n * (sum of squares) - (sum)^2.  So the check can only print
    its failure message after an overflow. *)
Theorem check_pairwise_without_overflow (l : list Z) :
  pair_total l l < 2 ^ 63 ->
  check_pairwise l = true
  /\ 2 * pairwise_rhs l = pair_total l l
  /\ pairwise_rhs l
     = Z.of_nat (length l) * total (map (fun x => x * x) l)
       - total l * total l.
Proof. apply check_pairwise_in_range. Qed.

Lemma check_pairwise_without_overflow_witness :
  pair_total [1; 5; -3] [1; 5; -3] < 2 ^ 63
  /\ check_pairwise [1; 5; -3] = true
  /\ 2 * pairwise_rhs [1; 5; -3] = pair_total [1; 5; -3] [1; 5; -3]
  /\ pairwise_rhs [1; 5; -3]
     = Z.of_nat (length [1; 5; -3])
       * total (map (fun x => x * x) [1; 5; -3])
       - total [1; 5; -3] * total [1; 5; -3].
Proof.
  assert (H : pair_total [1; 5; -3] [1; 5; -3] < 2 ^ 63) by reflexivity.
  exact (conj H (check_pairwise_without_overflow [1; 5; -3] H)).
Defined.

(** X14: [==] on sequences of integers is structural equality: it answers
    true exactly when the two sequences have the same elements in the same
    order, so sequences of different lengths compare unequal. *)
Theorem list_eq_is_structural (a b : list Z) :
  (list_eq eqb a b = true <-> a = b)
  /\ (length a <> length b -> list_eq eqb a b = false).
Proof.
  split; [apply list_eq_Z|].
  intros Hlen. destruct (list_eq eqb a b) eqn:E; [|reflexivity].
  apply list_eq_Z in E. now subst.
Qed.


(** X16: the fold of [laws_check] is the conjunction of the start value and
    of the three checks at every element: one failing element, or a false
    start value, makes the whole fold false. *)
Theorem fold_of_laws_is_conjunction
    (law1 law2 law3 : Z -> bool) (l : list Z) (s : bool) :
  foldl (laws_check_of law1 law2 law3) l s
  = s && forallb (fun x => law1 x && law2 x && law3 x) l.
Proof. apply foldl_laws_check. Qed.

(** X17: the three law checks of [main] hold on every sequence of 64-bit
    integers, also where the squares and doubles overflow, so with them the
    confirmation lines are always printed. *)
Theorem laws_hold_on_every_sequence (l : list Z) :
  foldl laws_check l true = true
  /\ output (main_of law1 law2 law3 l) = confirmation ++ demonstration l.
Proof.
  split; [apply laws_check_all|].
  unfold output. rewrite main_of_run.
  change (laws_check_of law1 law2 law3) with (@laws_check Z machine).
  now rewrite laws_check_all.
Qed.

(** X18: for every length n up to 2^15, run on the generated sequence
    0..n-1 the program prints the three confirmation lines and then the
    three arithmetic lines, each with the answer true, and returns 0. *)
Theorem main_on_generated_sequence (n : nat) :
  Z.of_nat n <= 2 ^ 15 ->
  main_of law1 law2 law3 (ls_of n) []
  = (0, confirmation
        ++ [ line_doubles (last_index (ls_of n)) true;
             line_squares (last_index (ls_of n)) true;
             line_pairwise true ]).
Proof.
  intros Hn. rewrite main_of_run.
  change (laws_check_of law1 law2 law3) with (@laws_check Z machine).
  rewrite laws_check_all. unfold demonstration.
  rewrite (proj1 (check_doubles_ls_of n ltac:(lia))).
  rewrite (proj1 (check_squares_ls_of n ltac:(lia))).
  rewrite (proj1 (check_pairwise_in_range (ls_of n) (pair_total_ls_of n Hn))).
  reflexivity.
Qed.

Lemma main_on_generated_sequence_witness :
  Z.of_nat 100 <= 2 ^ 15
  /\ main []
     = (0, confirmation
           ++ [ line_doubles (last_index ls) true;
                line_squares (last_index ls) true;
                line_pairwise true ]).
Proof.
  assert (H : Z.of_nat 100 <= 2 ^ 15) by discriminate.
  exact (conj H (main_on_generated_sequence 100 H)).
Defined.

(** X19: the recursion of [prod] nests one call per element of the sequence
    and one more for the empty rest: the executor completes exactly when it
    may nest more calls than the sequence has elements. *)
Theorem prod_recursion_depth {X U : Type}
    (f0 : X -> list U) (fuel : nat) (xs : list X) (a : nat) (m : store X) :
  objects m !! a = Some xs ->
  (prod_exec fuel f0 a m = None <-> (fuel <= length xs)%nat)
  /\ ((length xs < fuel)%nat ->
      prod_exec fuel f0 a m
      = Some (prod f0 xs, Store (objects m) (applied m ++ xs))).
Proof.
  intros Ha. split.
  - split.
    + intros Hnone. destruct (Nat.le_gt_cases fuel (length xs)) as [|Hlt];
        [assumption|].
      rewrite (prod_exec_spec f0 fuel xs a m Ha Hlt) in Hnone. discriminate.
    + now apply prod_exec_out_of_fuel.
  - now apply prod_exec_spec.
Qed.

Lemma prod_recursion_depth_witness :
  (prod_exec 3 (@g Z _) 0%nat (Store [[1; 2; 3]] []) = None
   <-> (3 <= length [1; 2; 3])%nat)
  /\ ((length [1; 2; 3] < 3)%nat ->
      prod_exec 3 (@g Z _) 0%nat (Store [[1; 2; 3]] [])
      = Some (prod g [1; 2; 3], Store [[1; 2; 3]] ([] ++ [1; 2; 3]))).
Proof.
  exact (prod_recursion_depth g 3 [1; 2; 3] 0%nat
           (Store [[1; 2; 3]] []) eq_refl).
Defined.

(** X20: the bound of X13 is sharp: when the sum of squared pairwise
    differences is in the first range that no longer fits an [int64_t],
    from 2^63 up to 2^64, the third check is false (and the failure message
    is printed). *)
Theorem check_pairwise_fails_on_overflow (l : list Z) :
  2 ^ 63 <= pair_total l l < 2 ^ 64 ->
  check_pairwise l = false
  /\ line_pairwise (check_pairwise l)
     = ("Sum of squares vs square of sums (provided no overflow): "
        ++ "false (you overflowed it!)" ++ nl ++ nl)%string.
Proof.
  intros Hb. pose proof (pair_total_closed l l) as Hc.
  set (D := Z.of_nat (length l) * total (map (fun x => x * x) l)
            - total l * total l) in *.
  assert (HD : pair_total l l = D * 2) by lia.
  assert (Hs : sigma_dx2 l = (D - 2 ^ 63) * 2).
  { rewrite sigma_dx2_congruent.
    rewrite (wrap64_cong (pair_total l l) (pair_total l l - 2 ^ 64) 1) by lia.
    rewrite wrap64_small by lia. lia. }
  assert (Hr : pairwise_rhs l = D - 2 ^ 63).
  { unfold pairwise_rhs. rewrite Hs.
    change (quo ?a (int64 2)) with (wrap64 (Z.quot a 2)).
    rewrite Z.quot_mul by lia. apply wrap64_small. lia. }
  assert (Hf : check_pairwise l = false).
  { unfold check_pairwise. rewrite Hr, pairwise_lhs_congruent. fold D.
    change (eqb ?a (to_size ?b)) with (Z.eqb a (wrapu64 b)).
    rewrite (wrapu64_small D) by lia.
    rewrite (wrapu64_cong (D - 2 ^ 63) (D + 2 ^ 63) (-1)) by lia.
    rewrite wrapu64_small by lia. apply Z.eqb_neq. lia. }
  split; [exact Hf|]. now rewrite Hf.
Qed.

Lemma check_pairwise_fails_on_overflow_witness :
  2 ^ 63 <= pair_total [0; 2 ^ 31] [0; 2 ^ 31] < 2 ^ 64
  /\ check_pairwise [0; 2 ^ 31] = false
  /\ line_pairwise (check_pairwise [0; 2 ^ 31])
     = ("Sum of squares vs square of sums (provided no overflow): "
        ++ "false (you overflowed it!)" ++ nl ++ nl)%string.
Proof.
  assert (H : 2 ^ 63 <= pair_total [0; 2 ^ 31] [0; 2 ^ 31] < 2 ^ 64)
    by (split; [discriminate | reflexivity]).
  exact (conj H (check_pairwise_fails_on_overflow [0; 2 ^ 31] H)).
Defined.
